(** * print_ip.hpp: overloaded [print_ip] templates selected by SFINAE

    The header declares five overloads of [print_ip]:
    - a template for integral types other than [bool] (bytes, most
      significant first, unsigned, joined by '.');
    - a plain function taking [const std::string&];
    - a template for [std::vector] / [std::list];
    - a template for [std::tuple] whose element types are all the same;
    - a deleted template for every other [std::tuple].

    The development has two layers.  The static layer represents C++ types
    as data, the header's traits as boolean functions on them, and overload
    resolution as a function from the argument type to the overload chosen
    (or to a diagnostic).  The dynamic layer gives each overload body as a
    function that appends text to the output stream. *)

From Stdlib Require Import ZArith List String Ascii Bool Lia Arith.
From Stdlib Require Import DecimalString DecimalPos DecimalZ Permutation.
Import ListNotations.

Local Open Scope list_scope.
Local Open Scope string_scope.

(** ** Static layer: types *)

(** The integral types of [<type_traits>] that have a fixed-width alias in
    [<cstdint>], plus [bool].  The character types are the 8-bit ones. *)
Inductive integral : Type :=
| Bool
| Char | SChar | UChar
| Short | UShort
| Int | UInt
| Long | ULong
| LLong | ULLong.

(** The allocator argument of a container ([Args...] in [is_vector] and
    [is_list] absorbs it). *)
Inductive allocator : Type :=
| StdAllocator
| CustomAllocator (name : string).

(** What the header can observe of a class type of the caller's: whether
    an object of it converts implicitly to [std::string] (through a
    conversion function, or because [std::string] is a base), and whether
    [std::cout << x] compiles for an object [x] of it. *)
Record class_traits : Type := {
  converts_to_std_string : bool;
  has_stream_inserter : bool
}.

(** Argument types after removal of references and cv-qualifiers.  A
    [TClass] is a class type other than the standard ones listed, and not
    derived from a [std::tuple]. *)
#[local] Unset Elimination Schemes.
Inductive ctype : Type :=
| TIntegral (k : integral)
| TDouble
| TString                                   (* std::string *)
| TCharPtr                                  (* const char* *)
| TCharArray (n : nat)                      (* const char[n], a string literal *)
| TVector (E : ctype) (A : allocator)       (* std::vector<E, A> *)
| TList (E : ctype) (A : allocator)         (* std::list<E, A> *)
| TTuple (Ts : list ctype)                  (* std::tuple<Ts...> *)
| TClass (name : string) (traits : class_traits).   (* another class type *)
#[local] Set Elimination Schemes.

Module Sizes.

(** [sizeof] on the LP64 data model. *)
Definition sizeof (k : integral) : nat :=
  match k with
  | Bool | Char | SChar | UChar => 1
  | Short | UShort => 2
  | Int | UInt => 4
  | Long | ULong | LLong | ULLong => 8
  end.

Definition is_signed (k : integral) : bool :=
  match k with
  | Char | SChar | Short | Int | Long | LLong => true
  | Bool | UChar | UShort | UInt | ULong | ULLong => false
  end.

End Sizes.

(** ** Static layer: traits *)

Definition integral_eqb (a b : integral) : bool :=
  match a, b with
  | Bool, Bool | Char, Char | SChar, SChar | UChar, UChar
  | Short, Short | UShort, UShort | Int, Int | UInt, UInt
  | Long, Long | ULong, ULong | LLong, LLong | ULLong, ULLong => true
  | _, _ => false
  end.

Definition class_traits_eqb (a b : class_traits) : bool :=
  Bool.eqb (converts_to_std_string a) (converts_to_std_string b) &&
  Bool.eqb (has_stream_inserter a) (has_stream_inserter b).

Definition allocator_eqb (a b : allocator) : bool :=
  match a, b with
  | StdAllocator, StdAllocator => true
  | CustomAllocator x, CustomAllocator y => String.eqb x y
  | _, _ => false
  end.

(** [std::is_same_v<T, U>]. *)
Fixpoint is_same (T U : ctype) {struct T} : bool :=
  match T, U with
  | TIntegral a, TIntegral b => integral_eqb a b
  | TDouble, TDouble => true
  | TString, TString => true
  | TCharPtr, TCharPtr => true
  | TCharArray n, TCharArray m => Nat.eqb n m
  | TVector E A, TVector E' A' => is_same E E' && allocator_eqb A A'
  | TList E A, TList E' A' => is_same E E' && allocator_eqb A A'
  | TTuple Ts, TTuple Us =>
      (fix all2 (l : list ctype) (r : list ctype) {struct l} : bool :=
         match l, r with
         | [], [] => true
         | x :: l', y :: r' => is_same x y && all2 l' r'
         | _, _ => false
         end) Ts Us
  | TClass a ta, TClass b tb => String.eqb a b && class_traits_eqb ta tb
  | _, _ => false
  end.

(** [std::decay_t<T>]: arrays decay to pointers; nothing else changes on
    types without references or qualifiers. *)
Definition decay (T : ctype) : ctype :=
  match T with
  | TCharArray _ => TCharPtr
  | _ => T
  end.

(** [is_vector<T>]: the primary template is false, the partial
    specialisation for [std::vector<Args...>] is true. *)
Definition is_vector (T : ctype) : bool :=
  match T with
  | TVector _ _ => true
  | _ => false
  end.

Definition is_vector_v (T : ctype) : bool := is_vector (decay T).

Definition is_list (T : ctype) : bool :=
  match T with
  | TList _ _ => true
  | _ => false
  end.

Definition is_list_v (T : ctype) : bool := is_list (decay T).

(** [are_same<Ts...>]: the primary template is true; the specialisation
    [are_same<T, U, R...>] is [is_same_v<T, U> && are_same<U, R...>::value]. *)
Fixpoint are_same (Ts : list ctype) : bool :=
  match Ts with
  | T :: ((U :: _) as UR) => is_same T U && are_same UR
  | _ => true
  end.

Definition are_same_v (Ts : list ctype) : bool := are_same Ts.

(** [std::is_integral_v<T>]. *)
Definition is_integral (T : ctype) : bool :=
  match T with
  | TIntegral _ => true
  | _ => false
  end.

(** [sizeof...(Ts) > 0]. *)
Definition sizeof_pack_positive (Ts : list ctype) : bool :=
  Nat.ltb 0 (List.length Ts).

(** ** Static layer: overload resolution *)

Inductive overload : Type :=
| OvIntegral        (* template <class T, enable_if_t<...>> print_ip(T) *)
| OvString          (* print_ip(const std::string&) *)
| OvContainer       (* template <class C, enable_if_t<...>> print_ip(const C&) *)
| OvTuple           (* template <class... Ts, enable_if_t<...>> print_ip(const tuple<Ts...>&) *)
| OvTupleDeleted.   (* the same signature with the negated condition, = delete *)

Definition overloads : list overload :=
  [OvIntegral; OvString; OvContainer; OvTuple; OvTupleDeleted].

(** An argument binds to [const std::string&] when it is a [std::string],
    when [std::string] has a converting constructor for it (the one that
    matters here is the one from a pointer to [const char]), or when it is
    an object of a class that converts to [std::string]. *)
Definition converts_to_string (T : ctype) : bool :=
  match decay T with
  | TString | TCharPtr => true
  | TClass _ traits => converts_to_std_string traits
  | _ => false
  end.

(** [viable o T]: overload [o] is a candidate for an argument of type [T],
    that is, template argument deduction succeeds and the [enable_if_t]
    condition holds (or, for the plain function, the argument converts to
    the parameter type). *)
Definition viable (o : overload) (T : ctype) : bool :=
  match o with
  | OvIntegral =>
      (* T is deduced from a by-value parameter, hence decayed *)
      is_integral (decay T) && negb (is_same (decay T) (TIntegral Bool))
  | OvString => converts_to_string T
  | OvContainer => is_vector_v T || is_list_v T
  | OvTuple =>
      match T with
      | TTuple Ts => sizeof_pack_positive Ts && are_same_v Ts
      | _ => false
      end
  | OvTupleDeleted =>
      match T with
      | TTuple Ts => negb (sizeof_pack_positive Ts && are_same_v Ts)
      | _ => false
      end
  end.

Definition is_deleted (o : overload) : bool :=
  match o with
  | OvTupleDeleted => true
  | _ => false
  end.

(** What the compiler says about the call [print_ip(x)]. *)
Inductive diagnostic : Type :=
| NoMatchingFunction      (* no candidate is viable *)
| AmbiguousCall           (* several candidates are viable *)
| UseOfDeletedFunction    (* the chosen candidate is deleted *)
| NoStreamInsertion.      (* the chosen body needs a missing operator<< *)

Inductive resolution : Type :=
| Selected (o : overload)
| Rejected (d : diagnostic).

(** Overload resolution.  On the argument types above at most one
    candidate is viable (lemma [viable_exclusive] below), so no ranking of
    conversion sequences is needed.  (For the literal 0 the string function
    is a second candidate, through the null pointer conversion; the
    integral template is an exact match and wins, which is the result
    given here for its type.) *)
Definition resolve (T : ctype) : resolution :=
  match filter (fun o => viable o T) overloads with
  | [] => Rejected NoMatchingFunction
  | [o] => if is_deleted o then Rejected UseOfDeletedFunction else Selected o
  | _ => Rejected AmbiguousCall
  end.

(** [std::cout << x] is available for the arithmetic types, for
    [std::string], for character pointers and for the classes that
    declare an [operator<<]; the standard containers and tuples have
    none. *)
Definition has_inserter (T : ctype) : bool :=
  match decay T with
  | TIntegral _ | TDouble | TString | TCharPtr => true
  | TClass _ traits => has_stream_inserter traits
  | _ => false
  end.

(** The body of the chosen template is instantiated for the argument type
    and must compile: the container and tuple bodies insert every element
    into [std::cout]. *)
Definition body_compiles (o : overload) (T : ctype) : bool :=
  match o, T with
  | OvContainer, TVector E _ => has_inserter E
  | OvContainer, TList E _ => has_inserter E
  | OvTuple, TTuple Ts => forallb has_inserter Ts
  | _, _ => true
  end.

Definition compile (T : ctype) : resolution :=
  match resolve T with
  | Selected o =>
      if body_compiles o T then Selected o else Rejected NoStreamInsertion
  | Rejected d => Rejected d
  end.

(** ** Dynamic layer: values and the output stream *)

#[local] Unset Elimination Schemes.
Inductive value : Type :=
| VIntegral (k : integral) (z : Z)
| VString (s : string)
| VCharPtr (s : string)       (* points to the characters [s] and a final NUL *)
| VCharArray (s : string)     (* the literal with characters [s] *)
| VVector (E : ctype) (A : allocator) (xs : list value)
| VList (E : ctype) (A : allocator) (xs : list value)
| VTuple (xs : list value)
| VObject (name : string)
    (as_string : option string)   (* the [std::string] it converts to *)
    (as_text : option string).    (* what its [operator<<] writes *)
#[local] Set Elimination Schemes.

Definition is_some {A : Type} (x : option A) : bool :=
  match x with
  | Some _ => true
  | None => false
  end.

Fixpoint type_of (v : value) : ctype :=
  match v with
  | VIntegral k _ => TIntegral k
  | VString _ => TString
  | VCharPtr _ => TCharPtr
  | VCharArray s => TCharArray (S (String.length s))
  | VVector E A _ => TVector E A
  | VList E A _ => TList E A
  | VTuple xs => TTuple (map type_of xs)
  | VObject name as_string as_text =>
      TClass name {| converts_to_std_string := is_some as_string;
                     has_stream_inserter := is_some as_text |}
  end.

(** [std::cout]: the text written so far. *)
Definition ostream : Type := string.

Definition put (s : string) (out : ostream) : ostream := out ++ s.

Definition nl : string := String "010"%char EmptyString.
Definition dot : string := ".".

(** Decimal rendering of a number, as [operator<<] does for the integer
    types that are not character types. *)
Definition dec (z : Z) : string := NilZero.string_of_int (Z.to_int z).

(** The characters of a C string: everything before the first NUL. *)
Fixpoint c_str (s : string) : string :=
  match s with
  | EmptyString => EmptyString
  | String c s' =>
      if Ascii.eqb c "000"%char then EmptyString else String c (c_str s')
  end.

(** What [std::cout << x] writes, by the type of [x]: [bool] as 0 or 1,
    the character types as the character itself, the other integers in
    decimal, strings and C strings as their characters, an object what its
    own [operator<<] writes. *)
Definition text_of (x : value) : option string :=
  match x with
  | VIntegral Bool z => Some (if Z.eqb z 0 then "0" else "1")
  | VIntegral (Char | SChar | UChar) z =>
      Some (String (ascii_of_N (Z.to_N (z mod 256))) EmptyString)
  | VIntegral _ z => Some (dec z)
  | VString s => Some s
  | VCharPtr s => Some (c_str s)
  | VCharArray s => Some (c_str s)
  | VObject _ _ as_text => as_text
  | _ => None
  end.

Notation "x <- a ;; b" :=
  (match a with Some x => b | None => None end)
  (at level 61, a at next level, right associativity).

(** [out << x]. *)
Definition insert (x : value) (out : ostream) : option ostream :=
  s <- text_of x ;; Some (put s out).

(** ** Dynamic layer: the overload bodies *)

(** [static_cast<U>(value)] with [U = std::make_unsigned_t<T>] and
    [B = sizeof(U)]: the value modulo 2^(8B). *)
Definition static_cast_unsigned (B : nat) (value : Z) : Z :=
  value mod 2 ^ (8 * Z.of_nat B).

(** The [for] loop of the integral overload; [n] counts the iterations
    that remain, [i] is the loop variable. *)
Fixpoint print_ip_bytes (n i B : nat) (u : Z) (out : ostream) : ostream :=
  match n with
  | O => out
  | S n' =>
      let shift := Z.of_nat (8 * (B - 1 - i)) in
      let byte := Z.land (Z.shiftr u shift) 255 in
      let out := if Nat.eqb i 0 then out else put dot out in
      let out := put (dec byte) out in
      print_ip_bytes n' (S i) B u out
  end.

Definition print_ip_integral (k : integral) (value : Z) (out : ostream)
  : ostream :=
  let B := Sizes.sizeof k in
  let u := static_cast_unsigned B value in
  put nl (print_ip_bytes B 0 B u out).

Definition print_ip_string (s : string) (out : ostream) : ostream :=
  put nl (put s out).

(** The range-[for] of the container overload, threading [first]. *)
Fixpoint print_ip_range (cont : list value) (first : bool) (out : ostream)
  : option ostream :=
  match cont with
  | [] => Some out
  | x :: rest =>
      let out := if negb first then put dot out else out in
      let first := false in
      out <- insert x out ;;
      print_ip_range rest first out
  end.

Definition print_ip_container (cont : list value) (out : ostream)
  : option ostream :=
  let first := true in
  out <- print_ip_range cont first out ;;
  Some (put nl out).

Module detail.

(** The lambda [print_one]; it captures [first] and the stream by
    reference, so both are threaded as state. *)
Definition print_one (v : value) (st : bool * ostream)
  : option (bool * ostream) :=
  let (first, out) := st in
  let out := if negb first then put dot out else out in
  out <- insert v out ;;
  Some (false, out).

(** The fold expression [(print_one(std::get<I>(t)), ...)]: a left-to-right
    sequence over the indices [I...]. *)
Fixpoint fold_comma (t : list value) (I : list nat) (st : bool * ostream)
  : option (bool * ostream) :=
  match I with
  | [] => Some st
  | i :: I' =>
      v <- nth_error t i ;;
      st <- print_one v st ;;
      fold_comma t I' st
  end.

Definition print_tuple_impl (t : list value) (I : list nat) (out : ostream)
  : option ostream :=
  let first := true in
  st <- fold_comma t I (first, out) ;;
  Some (put nl (snd st)).

End detail.

(** [std::make_index_sequence<sizeof...(Ts)>] is 0, 1, ..., n-1. *)
Definition make_index_sequence (n : nat) : list nat := seq 0 n.

Definition print_ip_tuple (t : list value) (out : ostream) : option ostream :=
  detail.print_tuple_impl t (make_index_sequence (List.length t)) out.

(** The [std::string] an argument of the plain overload is bound to: the
    argument itself, the temporary built from a C string, or the result
    of the object's conversion. *)
Definition to_std_string (v : value) : option string :=
  match v with
  | VString s => Some s
  | VCharPtr s => Some (c_str s)
  | VCharArray s => Some (c_str s)
  | VObject _ as_string _ => as_string
  | _ => None
  end.

(** Running the body of overload [o] on argument [v]; [None] when [v] is
    not an argument that overload can receive. *)
Definition run (o : overload) (v : value) (out : ostream) : option ostream :=
  match o, v with
  | OvIntegral, VIntegral k z => Some (print_ip_integral k z out)
  | OvString, _ => s <- to_std_string v ;; Some (print_ip_string s out)
  | OvContainer, VVector _ _ xs => print_ip_container xs out
  | OvContainer, VList _ _ xs => print_ip_container xs out
  | OvTuple, VTuple xs => print_ip_tuple xs out
  | _, _ => None
  end.

(** The result of a program that calls [print_ip(v)]: it does not build,
    or it runs and leaves text on the stream.  [IllTyped] marks a [value]
    that is no C++ value of its type (a vector holding an element of
    another type). *)
Inductive outcome : Type :=
| CompileError (d : diagnostic)
| Printed (out : ostream)
| IllTyped.

Definition print_ip (v : value) (out : ostream) : outcome :=
  match compile (type_of v) with
  | Rejected d => CompileError d
  | Selected o =>
      match run o v out with
      | Some out' => Printed out'
      | None => IllTyped
      end
  end.

(** A vector or list holds elements of its element type, a tuple holds
    one value per field. *)
Fixpoint well_typed (v : value) : bool :=
  match v with
  | VVector E _ xs | VList E _ xs =>
      forallb (fun x => is_same (type_of x) E && well_typed x) xs
  | VTuple xs => forallb well_typed xs
  | _ => true
  end.

Definition u8 (z : Z) : value := VIntegral UChar z.
Definition i32 (z : Z) : value := VIntegral Int z.

(** ** Auxiliary definitions used in the statements *)

(** The stream renderings of a sequence of elements, if every element has
    one. *)
Fixpoint texts_of (xs : list value) : option (list string) :=
  match xs with
  | [] => Some []
  | x :: rest =>
      s <- text_of x ;;
      ss <- texts_of rest ;;
      Some (s :: ss)
  end.

(** Every text preceded by a separator. *)
Fixpoint dotted (ss : list string) : string :=
  match ss with
  | [] => ""
  | s :: rest => dot ++ s ++ dotted rest
  end.

(** The 8-bit groups of [u], most significant first: the [B] low digits
    of [u] in base 256. *)
Fixpoint be_bytes (B : nat) (u : Z) : list Z :=
  match B with
  | O => []
  | S B' => (be_bytes B' (u / 256) ++ [u mod 256])%Z%list
  end.

(** The number whose base-256 digits, most significant first, are [bs]. *)
Definition of_be_bytes (bs : list Z) : Z :=
  fold_left (fun acc b => acc * 256 + b)%Z bs 0%Z.

(** The byte the loop extracts in iteration [i]. *)
Definition byte_at (B : nat) (u : Z) (i : nat) : Z :=
  Z.land (Z.shiftr u (Z.of_nat (8 * (B - 1 - i)))) 255.

(** The [bool] value [b]. *)
Definition vbool (b : bool) : value := VIntegral Bool (Z.b2z b).

(** The overloads that are function templates; the string overload is an
    ordinary function. *)
Definition is_template (o : overload) : bool :=
  match o with
  | OvString => false
  | _ => true
  end.

(** The number of occurrences of the character [c] in [s]. *)
Fixpoint count_char (c : ascii) (s : string) : nat :=
  match s with
  | EmptyString => 0
  | String a s' => (if Ascii.eqb a c then 1 else 0) + count_char c s'
  end.

(** The integer types that [operator<<] prints as decimal numbers: all but
    [bool] and the character types. *)
Definition prints_decimal (k : integral) : bool :=
  match k with
  | Bool | Char | SChar | UChar => false
  | _ => true
  end.

(** The fields of [t] at the indices [I], in the order of [I]. *)
Fixpoint fields_at (t : list value) (I : list nat) : option (list value) :=
  match I with
  | [] => Some []
  | i :: I' =>
      v <- nth_error t i ;;
      vs <- fields_at t I' ;;
      Some (v :: vs)
  end.

(** * Properties *)

(** ** Equality of types *)

Section ctype_induction.
Variable P : ctype -> Prop.
Hypothesis HIntegral : forall k, P (TIntegral k).
Hypothesis HDouble : P TDouble.
Hypothesis HString : P TString.
Hypothesis HCharPtr : P TCharPtr.
Hypothesis HCharArray : forall n, P (TCharArray n).
Hypothesis HVector : forall E A, P E -> P (TVector E A).
Hypothesis HList : forall E A, P E -> P (TList E A).
Hypothesis HTuple : forall Ts, Forall P Ts -> P (TTuple Ts).
Hypothesis HClass : forall name traits, P (TClass name traits).

Fixpoint ctype_nested_ind (T : ctype) : P T :=
  match T with
  | TIntegral k => HIntegral k
  | TDouble => HDouble
  | TString => HString
  | TCharPtr => HCharPtr
  | TCharArray n => HCharArray n
  | TVector E A => HVector E A (ctype_nested_ind E)
  | TList E A => HList E A (ctype_nested_ind E)
  | TTuple Ts =>
      HTuple Ts
        ((fix all (l : list ctype) : Forall P l :=
            match l with
            | [] => Forall_nil P
            | x :: l' => Forall_cons x (ctype_nested_ind x) (all l')
            end) Ts)
  | TClass name traits => HClass name traits
  end.
End ctype_induction.

Lemma integral_eqb_eq (a b : integral) : integral_eqb a b = true <-> a = b.
Proof. destruct a, b; simpl; split; congruence. Qed.

Lemma allocator_eqb_eq (a b : allocator) : allocator_eqb a b = true <-> a = b.
Proof.
  destruct a as [|x], b as [|y]; simpl; split; try congruence.
  - intros H. apply String.eqb_eq in H. now subst.
  - intros H. injection H as ->. apply String.eqb_refl.
Qed.

Lemma class_traits_eqb_eq (a b : class_traits) :
  class_traits_eqb a b = true <-> a = b.
Proof.
  destruct a as [c1 i1], b as [c2 i2]. unfold class_traits_eqb. simpl.
  rewrite andb_true_iff, !Bool.eqb_true_iff. split.
  - intros [-> ->]. reflexivity.
  - intros [= -> ->]. now split.
Qed.

Lemma is_same_eq (T U : ctype) : is_same T U = true <-> T = U.
Proof.
  revert U. induction T using ctype_nested_ind; intros U; destruct U;
    simpl; try (split; congruence).
  - rewrite integral_eqb_eq. split; congruence.
  - rewrite Nat.eqb_eq. split; congruence.
  - rewrite andb_true_iff, IHT, allocator_eqb_eq. split.
    + intros [-> ->]. reflexivity.
    + intros H'. injection H' as -> ->. now split.
  - rewrite andb_true_iff, IHT, allocator_eqb_eq. split.
    + intros [-> ->]. reflexivity.
    + intros H'. injection H' as -> ->. now split.
  - rename Ts0 into Us. revert Us.
    induction H as [|x l Hx Hl IH]; intros [|y r]; try (split; congruence).
    rewrite andb_true_iff, Hx, IH. split.
    + intros [-> E]. injection E as ->. reflexivity.
    + intros E. injection E as -> ->. now split.
  - rewrite andb_true_iff, String.eqb_eq, class_traits_eqb_eq. split.
    + intros [-> ->]. reflexivity.
    + intros [= -> ->]. now split.
Qed.

Lemma is_same_refl (T : ctype) : is_same T T = true.
Proof. now apply is_same_eq. Qed.

Lemma is_same_neq (T U : ctype) : is_same T U = false <-> T <> U.
Proof.
  destruct (is_same T U) eqn:E.
  - apply is_same_eq in E. split; congruence.
  - split; [|reflexivity]. intros _ H. apply is_same_eq in H. congruence.
Qed.

(** ** The uniformity trait *)

Lemma are_same_cons2 (T U : ctype) (R : list ctype) :
  are_same (T :: U :: R) = is_same T U && are_same (U :: R).
Proof. reflexivity. Qed.

Lemma are_same_head (Ts : list ctype) :
  are_same Ts = true <-> (forall T, In T Ts -> hd_error Ts = Some T).
Proof.
  induction Ts as [|T [|U R] IH].
  - simpl. split; [intros _ T []|reflexivity].
  - simpl. split; [|reflexivity]. intros _ X [->|[]]. reflexivity.
  - rewrite are_same_cons2, andb_true_iff, is_same_eq, IH. split.
    + intros [-> H] X [->|HX]; [reflexivity|]. exact (H X HX).
    + intros H. assert (E : T = U).
      { specialize (H U (or_intror (or_introl eq_refl))). simpl in H.
        congruence. }
      subst U. split; [reflexivity|]. intros X HX. simpl.
      specialize (H X (or_intror HX)). exact H.
Qed.

(** A type list is not uniform exactly when two of its members differ. *)
Lemma are_same_false (Ts : list ctype) :
  are_same Ts = false <-> exists T U, In T Ts /\ In U Ts /\ T <> U.
Proof.
  split.
  - induction Ts as [|T [|U R] IH]; try discriminate.
    rewrite are_same_cons2, andb_false_iff. intros [H|H].
    + apply is_same_neq in H. exists T, U. simpl. auto.
    + destruct (IH H) as (X & Y & HX & HY & N).
      exists X, Y. split; [right; exact HX|]. split; [right; exact HY|exact N].
  - intros (T & U & HT & HU & N).
    destruct (are_same Ts) eqn:E; [|reflexivity].
    pose proof (proj1 (are_same_head Ts) E) as H.
    pose proof (H T HT) as H1. pose proof (H U HU) as H2. congruence.
Qed.

(** ** Overload resolution *)

(** No two overloads are candidates for the same argument type. *)
Lemma viable_exclusive (T : ctype) (o1 o2 : overload) :
  viable o1 T = true -> viable o2 T = true -> o1 = o2.
Proof.
  destruct T as [k| | | |n|E A|E A|Ts|name traits];
    destruct o1, o2; try reflexivity;
    unfold viable, converts_to_string, is_vector_v, is_list_v; simpl;
    try congruence;
    destruct (sizeof_pack_positive Ts && are_same_v Ts); simpl; congruence.
Qed.

Lemma resolve_integral (k : integral) :
  resolve (TIntegral k) =
  if integral_eqb k Bool then Rejected NoMatchingFunction
  else Selected OvIntegral.
Proof. destruct k; reflexivity. Qed.

Lemma resolve_tuple (Ts : list ctype) :
  resolve (TTuple Ts) =
  if sizeof_pack_positive Ts && are_same_v Ts then Selected OvTuple
  else Rejected UseOfDeletedFunction.
Proof.
  unfold resolve. simpl.
  destruct (sizeof_pack_positive Ts && are_same_v Ts); reflexivity.
Qed.

Lemma resolve_class (name : string) (traits : class_traits) :
  resolve (TClass name traits) =
  if converts_to_std_string traits then Selected OvString
  else Rejected NoMatchingFunction.
Proof. destruct traits as [[|] i]; reflexivity. Qed.

Lemma resolve_sound (T : ctype) (o : overload) :
  resolve T = Selected o -> viable o T = true /\ is_deleted o = false.
Proof.
  unfold resolve.
  destruct (filter (fun o => viable o T) overloads) as [|o1 [|o2 l]] eqn:E;
    try discriminate.
  destruct (is_deleted o1) eqn:D; try discriminate.
  intros [= <-]. split; [|exact D].
  assert (H : In o1 (filter (fun o => viable o T) overloads))
    by (rewrite E; left; reflexivity).
  apply filter_In in H. tauto.
Qed.

(** The catch-all branch of [resolve] is never taken. *)
Lemma resolve_unambiguous (T : ctype) : resolve T <> Rejected AmbiguousCall.
Proof.
  destruct T as [k| | | |n|E A|E A|Ts|name traits]; try discriminate.
  - rewrite resolve_integral. destruct (integral_eqb k Bool); discriminate.
  - rewrite resolve_tuple.
    destruct (sizeof_pack_positive Ts && are_same_v Ts); discriminate.
  - rewrite resolve_class.
    destruct (converts_to_std_string traits); discriminate.
Qed.

(** ** Text on the stream *)

Lemma append_assoc (a b c : string) : (a ++ b) ++ c = a ++ (b ++ c).
Proof. induction a as [|x a IH]; simpl; [reflexivity|now rewrite IH]. Qed.

Lemma append_nil_r (a : string) : a ++ "" = a.
Proof. induction a as [|x a IH]; simpl; [reflexivity|now rewrite IH]. Qed.

Lemma concat_dotted (s : string) (ss : list string) :
  String.concat dot (s :: ss) = s ++ dotted ss.
Proof.
  revert s. induction ss as [|t ss IH]; intros s.
  - simpl. now rewrite append_nil_r.
  - change (String.concat dot (s :: t :: ss))
      with (s ++ dot ++ String.concat dot (t :: ss)).
    now rewrite IH.
Qed.

Lemma print_ip_range_rest (xs : list value) (ss : list string) (out : ostream) :
  texts_of xs = Some ss ->
  print_ip_range xs false out = Some (out ++ dotted ss).
Proof.
  revert ss out. induction xs as [|x xs IH]; intros ss out; simpl.
  - intros [= <-]. simpl. now rewrite append_nil_r.
  - unfold insert. destruct (text_of x) as [s|]; [|discriminate].
    destruct (texts_of xs) as [ss'|]; [|discriminate].
    intros [= <-]. rewrite (IH ss' _ eq_refl). unfold put. simpl.
    now rewrite !append_assoc.
Qed.

Lemma print_ip_range_first (xs : list value) (ss : list string) (out : ostream) :
  texts_of xs = Some ss ->
  print_ip_range xs true out = Some (out ++ String.concat dot ss).
Proof.
  destruct xs as [|x xs]; simpl.
  - intros [= <-]. simpl. now rewrite append_nil_r.
  - unfold insert. destruct (text_of x) as [s|]; [|discriminate].
    destruct (texts_of xs) as [ss'|] eqn:E; [|discriminate].
    intros [= <-]. rewrite (print_ip_range_rest xs ss' _ E).
    rewrite concat_dotted. unfold put. now rewrite append_assoc.
Qed.

Lemma print_ip_container_texts (xs : list value) (ss : list string)
  (out : ostream) :
  texts_of xs = Some ss ->
  print_ip_container xs out = Some (out ++ String.concat dot ss ++ nl).
Proof.
  intros H. unfold print_ip_container.
  rewrite (print_ip_range_first xs ss out H). unfold put.
  now rewrite append_assoc.
Qed.

(** ** The fold over the tuple indices is the range loop *)

Lemma skipn_nth_error (t : list value) (i : nat) (v : value) :
  nth_error t i = Some v -> skipn i t = v :: skipn (S i) t.
Proof.
  revert i. induction t as [|x t IH]; intros [|i]; simpl; try discriminate.
  - now intros [= ->].
  - intros H. now rewrite (IH i H).
Qed.

Lemma fold_comma_range (t : list value) (n i : nat) (first : bool)
  (out : ostream) :
  i + n = List.length t ->
  option_map snd (detail.fold_comma t (seq i n) (first, out)) =
  print_ip_range (skipn i t) first out.
Proof.
  revert i first out. induction n as [|n IH]; intros i first out Hlen.
  - simpl. rewrite skipn_all2 by lia. reflexivity.
  - simpl seq. simpl detail.fold_comma.
    destruct (nth_error t i) as [v|] eqn:Hv.
    + rewrite (skipn_nth_error t i v Hv). simpl.
      destruct (insert v (if negb first then put dot out else out)) as [out'|];
        [|reflexivity].
      apply IH. lia.
    + apply nth_error_None in Hv. lia.
Qed.

Lemma print_ip_tuple_container (t : list value) (out : ostream) :
  print_ip_tuple t out = print_ip_container t out.
Proof.
  unfold print_ip_tuple, detail.print_tuple_impl, print_ip_container,
    make_index_sequence.
  pose proof (fold_comma_range t (List.length t) 0 true out eq_refl) as H.
  simpl skipn in H. rewrite <- H.
  destruct (detail.fold_comma t (seq 0 (List.length t)) (true, out))
    as [[f o]|]; reflexivity.
Qed.

(** ** The byte loop of the integral overload *)

Lemma print_ip_bytes_rest (n i B : nat) (u : Z) (out : ostream) :
  i <> 0 ->
  print_ip_bytes n i B u out =
  out ++ dotted (map (fun j => dec (byte_at B u j)) (seq i n)).
Proof.
  revert i out. induction n as [|n IH]; intros i out Hi; simpl.
  - now rewrite append_nil_r.
  - destruct (Nat.eqb_spec i 0) as [E|_]; [contradiction|].
    rewrite IH by lia. unfold put, byte_at. now rewrite !append_assoc.
Qed.

Lemma print_ip_bytes_first (n B : nat) (u : Z) (out : ostream) :
  print_ip_bytes n 0 B u out =
  out ++ String.concat dot (map (fun j => dec (byte_at B u j)) (seq 0 n)).
Proof.
  destruct n as [|n].
  - simpl. now rewrite append_nil_r.
  - change (seq 0 (S n)) with (0 :: seq 1 n). cbn [map].
    rewrite concat_dotted. cbn [print_ip_bytes Nat.eqb].
    rewrite print_ip_bytes_rest by lia.
    unfold put, byte_at. now rewrite append_assoc.
Qed.

Lemma byte_at_last (B : nat) (u : Z) : byte_at (S B) u B = (u mod 256)%Z.
Proof.
  unfold byte_at. replace (S B - 1 - B) with 0 by lia.
  simpl. rewrite Z.shiftr_0_r.
  change 255%Z with (Z.ones 8). now rewrite Z.land_ones by lia.
Qed.

Lemma byte_at_shift (B : nat) (u : Z) (j : nat) :
  j < B -> byte_at (S B) u j = byte_at B (u / 256)%Z j.
Proof.
  intros Hj. unfold byte_at.
  change 256%Z with (2 ^ 8)%Z. rewrite <- Z.shiftr_div_pow2 by lia.
  rewrite Z.shiftr_shiftr by lia.
  do 2 f_equal. lia.
Qed.

Lemma byte_at_be_bytes (B : nat) (u : Z) :
  map (byte_at B u) (seq 0 B) = be_bytes B u.
Proof.
  revert u. induction B as [|B IH]; intros u; [reflexivity|].
  rewrite seq_S, map_app. simpl. rewrite byte_at_last. f_equal.
  rewrite <- IH. apply map_ext_in. intros j Hj. apply in_seq in Hj.
  apply byte_at_shift. lia.
Qed.

Lemma print_ip_bytes_be (B : nat) (u : Z) (out : ostream) :
  print_ip_bytes B 0 B u out =
  out ++ String.concat dot (map dec (be_bytes B u)).
Proof.
  rewrite print_ip_bytes_first, <- byte_at_be_bytes, map_map. reflexivity.
Qed.

Lemma be_bytes_length (B : nat) (u : Z) : List.length (be_bytes B u) = B.
Proof.
  revert u. induction B as [|B IH]; intros u; simpl; [reflexivity|].
  rewrite length_app, IH. simpl. lia.
Qed.

Lemma be_bytes_range (B : nat) (u : Z) :
  Forall (fun b => 0 <= b <= 255)%Z (be_bytes B u).
Proof.
  revert u. induction B as [|B IH]; intros u; simpl; [constructor|].
  apply Forall_app. split; [apply IH|]. constructor; [|constructor].
  pose proof (Z.mod_pos_bound u 256). lia.
Qed.

Lemma of_be_bytes_snoc (bs : list Z) (b : Z) :
  of_be_bytes (bs ++ [b]) = (of_be_bytes bs * 256 + b)%Z.
Proof. unfold of_be_bytes. now rewrite fold_left_app. Qed.

Lemma of_be_bytes_be_bytes (B : nat) (u : Z) :
  of_be_bytes (be_bytes B u) = (u mod 2 ^ (8 * Z.of_nat B))%Z.
Proof.
  revert u. induction B as [|B IH]; intros u.
  - simpl. now rewrite Z.mod_1_r.
  - simpl be_bytes. rewrite of_be_bytes_snoc, IH.
    replace (8 * Z.of_nat (S B))%Z with (8 + 8 * Z.of_nat B)%Z by lia.
    rewrite Z.pow_add_r by lia. change (2 ^ 8)%Z with 256%Z.
    rewrite Z.rem_mul_r by lia. lia.
Qed.

Lemma print_ip_integral_be (k : integral) (z : Z) (out : ostream) :
  print_ip_integral k z out =
  out ++ String.concat dot
           (map dec (be_bytes (Sizes.sizeof k)
                       (static_cast_unsigned (Sizes.sizeof k) z))) ++ nl.
Proof.
  unfold print_ip_integral, put. rewrite print_ip_bytes_be.
  now rewrite append_assoc.
Qed.

(** ** Compilation of calls on containers and tuples *)

Lemma compile_vector (E : ctype) (A : allocator) :
  compile (TVector E A) =
  if has_inserter E then Selected OvContainer else Rejected NoStreamInsertion.
Proof. reflexivity. Qed.

Lemma compile_list (E : ctype) (A : allocator) :
  compile (TList E A) =
  if has_inserter E then Selected OvContainer else Rejected NoStreamInsertion.
Proof. reflexivity. Qed.

Lemma compile_tuple (Ts : list ctype) :
  compile (TTuple Ts) =
  if sizeof_pack_positive Ts && are_same_v Ts
  then if forallb has_inserter Ts then Selected OvTuple
       else Rejected NoStreamInsertion
  else Rejected UseOfDeletedFunction.
Proof.
  unfold compile. rewrite resolve_tuple.
  destruct (sizeof_pack_positive Ts && are_same_v Ts); reflexivity.
Qed.

Lemma are_same_uniform (E : ctype) (Ts : list ctype) :
  Forall (eq E) Ts -> are_same Ts = true.
Proof.
  intros H. apply are_same_head. intros T HT.
  rewrite Forall_forall in H. destruct Ts as [|T0 Ts]; [destruct HT|].
  simpl. rewrite <- (H T HT). now rewrite (H T0 (or_introl eq_refl)).
Qed.

Lemma forallb_uniform (f : ctype -> bool) (E T : ctype) (Ts : list ctype) :
  Forall (eq E) (T :: Ts) -> forallb f (T :: Ts) = f E.
Proof.
  revert T. induction Ts as [|U Us IH]; intros T H.
  - inversion H as [|? ? HT _]. subst T. simpl. apply andb_true_r.
  - inversion H as [|? ? HT HUs]. subst. cbn [forallb].
    cbn [forallb] in IH. rewrite (IH U HUs). now destruct (f T).
Qed.

Lemma type_of_uniform (E : ctype) (xs : list value) :
  Forall (fun x => type_of x = E) xs -> Forall (eq E) (map type_of xs).
Proof.
  induction 1 as [|x xs Hx _ IH]; simpl; constructor; auto.
Qed.

(** Every value of a type that has an [operator<<] has a rendering. *)
Lemma text_of_typed (x : value) :
  has_inserter (type_of x) = true -> exists s, text_of x = Some s.
Proof.
  destruct x as [k z|s|s|s|E A xs|E A xs|xs|name cs ct]; simpl;
    try discriminate; eauto.
  - destruct k; eauto.
  - unfold has_inserter. simpl. destruct ct; [eauto|discriminate].
Qed.

Lemma texts_of_typed (E : ctype) (xs : list value) :
  has_inserter E = true ->
  Forall (fun x => type_of x = E) xs ->
  exists ss, texts_of xs = Some ss.
Proof.
  intros HE. induction 1 as [|x xs Hx _ [ss IH]]; simpl.
  - now exists [].
  - rewrite <- Hx in HE. destruct (text_of_typed x HE) as [s ->].
    rewrite IH. now exists (s :: ss).
Qed.

Lemma texts_of_Forall2 (xs : list value) (ss : list string) :
  texts_of xs = Some ss -> Forall2 (fun x s => text_of x = Some s) xs ss.
Proof.
  revert ss. induction xs as [|x xs IH]; intros ss; simpl.
  - intros [= <-]. constructor.
  - destruct (text_of x) as [s|] eqn:Hx; [|discriminate].
    destruct (texts_of xs) as [ss'|]; [|discriminate].
    intros [= <-]. constructor; auto.
Qed.

Lemma print_ip_vector_run (E : ctype) (A : allocator) (xs : list value)
  (out : ostream) :
  has_inserter E = true ->
  print_ip (VVector E A xs) out =
  match print_ip_container xs out with
  | Some out' => Printed out'
  | None => IllTyped
  end.
Proof.
  intros HE. unfold print_ip. simpl type_of. rewrite compile_vector, HE.
  reflexivity.
Qed.

Lemma print_ip_list_run (E : ctype) (A : allocator) (xs : list value)
  (out : ostream) :
  has_inserter E = true ->
  print_ip (VList E A xs) out =
  match print_ip_container xs out with
  | Some out' => Printed out'
  | None => IllTyped
  end.
Proof.
  intros HE. unfold print_ip. simpl type_of. rewrite compile_list, HE.
  reflexivity.
Qed.

Lemma print_ip_tuple_run (E : ctype) (x : value) (xs : list value)
  (out : ostream) :
  Forall (fun y => type_of y = E) (x :: xs) ->
  print_ip (VTuple (x :: xs)) out =
  if has_inserter E
  then match print_ip_container (x :: xs) out with
       | Some out' => Printed out'
       | None => IllTyped
       end
  else CompileError NoStreamInsertion.
Proof.
  intros H. apply type_of_uniform in H.
  unfold print_ip. cbn [type_of]. rewrite compile_tuple.
  unfold are_same_v. rewrite (are_same_uniform E _ H).
  cbn [map] in H |- *. rewrite (forallb_uniform has_inserter E _ _ H).
  cbn [sizeof_pack_positive List.length Nat.ltb Nat.leb andb].
  destruct (has_inserter E); [|reflexivity].
  cbn [run]. now rewrite print_ip_tuple_container.
Qed.

(** * The claims *)

(** C1. For every value of an integral type other than [bool], [print_ip]
    writes the 8-bit groups of the value's unsigned reinterpretation, most
    significant first, each in decimal (0 to 255), joined by '.', and then
    one newline.  The groups are as many as the type has bytes and they are
    the base-256 digits of the value modulo 2^(8*sizeof).  A 32-bit value
    with bit pattern 0x7F000001 gives "127.0.0.1", a signed 32-bit -1 gives
    "255.255.255.255", and a one-byte value gives a single group without a
    separator. *)
Theorem print_ip_integral_dotted_bytes (k : integral) (z : Z) (out : ostream) :
  k <> Bool ->
  let B := Sizes.sizeof k in
  let u := (z mod 2 ^ (8 * Z.of_nat B))%Z in
  let groups := be_bytes B u in
  print_ip (VIntegral k z) out =
    Printed (out ++ String.concat "." (map dec groups) ++ nl) /\
  List.length groups = B /\
  Forall (fun g => 0 <= g <= 255)%Z groups /\
  of_be_bytes groups = u /\
  (B = 4 -> u = 0x7F000001%Z ->
   print_ip (VIntegral k z) out = Printed (out ++ "127.0.0.1" ++ nl)) /\
  (B = 4 -> Sizes.is_signed k = true -> z = (-1)%Z ->
   print_ip (VIntegral k z) out = Printed (out ++ "255.255.255.255" ++ nl)) /\
  (B = 1 ->
   print_ip (VIntegral k z) out = Printed (out ++ dec u ++ nl)).
Proof.
  intros Hk B u groups.
  assert (Hmain : print_ip (VIntegral k z) out =
            Printed (out ++ String.concat "." (map dec groups) ++ nl)).
  { unfold print_ip. cbn [type_of]. unfold compile.
    rewrite resolve_integral.
    destruct (integral_eqb k Bool) eqn:E.
    - apply integral_eqb_eq in E. contradiction.
    - cbn [body_compiles run]. now rewrite print_ip_integral_be. }
  split; [exact Hmain|].
  split; [apply be_bytes_length|].
  split; [apply be_bytes_range|].
  split.
  { unfold groups. rewrite of_be_bytes_be_bytes. unfold u.
    apply Z.mod_mod. apply Z.pow_nonzero; lia. }
  split; [|split].
  - intros HB Hu. rewrite Hmain. unfold groups. rewrite HB, Hu. reflexivity.
  - intros HB _ Hz. rewrite Hmain. unfold groups, u. rewrite HB, Hz.
    reflexivity.
  - intros HB. rewrite Hmain. unfold groups. rewrite HB.
    assert (Hu : (u mod 256 = u)%Z).
    { unfold u. rewrite HB. change (2 ^ (8 * Z.of_nat 1))%Z with 256%Z.
      apply Z.mod_mod. lia. }
    cbn [be_bytes map app String.concat]. now rewrite Hu.
Qed.

Lemma print_ip_integral_dotted_bytes_witness :
  Int <> Bool /\
  print_ip (VIntegral Int (-1)) "" = Printed ("" ++ "255.255.255.255" ++ nl).
Proof.
  assert (H : Int <> Bool) by discriminate.
  split; [exact H|].
  destruct (print_ip_integral_dotted_bytes Int (-1) "" H)
    as (_ & _ & _ & _ & _ & E & _).
  apply E; reflexivity.
Defined.

(** C3. For a [std::vector] or [std::list] whose element type has a stream
    rendering, [print_ip] writes the renderings of the elements in forward
    order, joined by single '.' characters, and then one newline; for the
    empty sequence it writes the newline alone. *)
Theorem print_ip_container_join (E : ctype) (A : allocator) (xs : list value)
  (out : ostream) :
  has_inserter E = true ->
  Forall (fun x => type_of x = E) xs ->
  exists ss : list string,
    Forall2 (fun x s => text_of x = Some s) xs ss /\
    print_ip (VVector E A xs) out =
      Printed (out ++ String.concat "." ss ++ nl) /\
    print_ip (VList E A xs) out =
      Printed (out ++ String.concat "." ss ++ nl) /\
    (xs = [] ->
     print_ip (VVector E A xs) out = Printed (out ++ nl) /\
     print_ip (VList E A xs) out = Printed (out ++ nl)).
Proof.
  intros HE Hxs. destruct (texts_of_typed E xs HE Hxs) as [ss Hss].
  exists ss. split; [now apply texts_of_Forall2|].
  rewrite (print_ip_vector_run E A xs out HE).
  rewrite (print_ip_list_run E A xs out HE).
  rewrite (print_ip_container_texts xs ss out Hss).
  repeat split; try reflexivity;
    subst xs; simpl in Hss; injection Hss as <-; reflexivity.
Qed.

Lemma print_ip_container_join_witness :
  exists ss : list string,
    Forall2 (fun x s => text_of x = Some s)
      [i32 100; i32 200; i32 300; i32 400] ss /\
    print_ip (VVector (TIntegral Int) StdAllocator
                [i32 100; i32 200; i32 300; i32 400]) "" =
      Printed ("" ++ String.concat "." ss ++ nl) /\
    print_ip (VList (TIntegral Int) StdAllocator
                [i32 100; i32 200; i32 300; i32 400]) "" =
      Printed ("" ++ String.concat "." ss ++ nl) /\
    ([i32 100; i32 200; i32 300; i32 400] = [] ->
     print_ip (VVector (TIntegral Int) StdAllocator
                 [i32 100; i32 200; i32 300; i32 400]) "" =
       Printed ("" ++ nl) /\
     print_ip (VList (TIntegral Int) StdAllocator
                 [i32 100; i32 200; i32 300; i32 400]) "" =
       Printed ("" ++ nl)).
Proof.
  apply (print_ip_container_join (TIntegral Int) StdAllocator
           [i32 100; i32 200; i32 300; i32 400] "").
  - reflexivity.
  - repeat constructor.
Defined.

Example print_ip_vector_100_200_300_400 :
  print_ip (VVector (TIntegral Int) StdAllocator
              [i32 100; i32 200; i32 300; i32 400]) "" =
  Printed ("100.200.300.400" ++ nl).
Proof. reflexivity. Qed.

(** C2. When two field types of a [std::tuple] differ, overload resolution
    picks the deleted overload: the call is rejected from the argument type
    alone, no overload is selected, and for no value and no stream does the
    call run or print.  For tuples with at least one field, this is the
    only way the deleted overload is picked. *)
Theorem heterogeneous_tuple_rejected (Ts : list ctype) :
  ((exists T U, In T Ts /\ In U Ts /\ T <> U) ->
   resolve (TTuple Ts) = Rejected UseOfDeletedFunction /\
   (forall o, viable o (TTuple Ts) = true -> is_deleted o = true) /\
   (forall v out, type_of v = TTuple Ts ->
      print_ip v out = CompileError UseOfDeletedFunction)) /\
  (Ts <> [] ->
   resolve (TTuple Ts) = Rejected UseOfDeletedFunction ->
   exists T U, In T Ts /\ In U Ts /\ T <> U).
Proof.
  split.
  - intros H. apply are_same_false in H.
    assert (R : resolve (TTuple Ts) = Rejected UseOfDeletedFunction).
    { rewrite resolve_tuple. unfold are_same_v. rewrite H.
      now rewrite andb_false_r. }
    split; [exact R|]. split.
    + intros o Ho. destruct o; simpl in Ho; try discriminate; [|reflexivity].
      unfold are_same_v in Ho. rewrite H, andb_false_r in Ho. discriminate.
    + intros v out Hv. unfold print_ip, compile. now rewrite Hv, R.
  - intros Hne R. apply are_same_false. rewrite resolve_tuple in R.
    destruct Ts as [|T Ts]; [contradiction|].
    unfold are_same_v in R. cbn [sizeof_pack_positive List.length Nat.ltb
      Nat.leb andb] in R.
    destruct (are_same (T :: Ts)); [discriminate|reflexivity].
Qed.

Lemma heterogeneous_tuple_rejected_witness :
  resolve (TTuple [TIntegral Int; TIntegral UChar]) =
    Rejected UseOfDeletedFunction /\
  print_ip (VTuple [i32 255; u8 0]) "" = CompileError UseOfDeletedFunction.
Proof.
  destruct (heterogeneous_tuple_rejected [TIntegral Int; TIntegral UChar])
    as [H _].
  destruct H as (R & _ & P).
  - exists (TIntegral Int), (TIntegral UChar). simpl.
    split; [auto|]. split; [auto|discriminate].
  - split; [exact R|]. apply P. reflexivity.
Defined.

(** C4, as the code has it.  A [std::tuple] with at least one field whose
    fields all have one type is printed exactly as a [std::vector] of that
    type holding the same values in the same order: the stream renderings
    of the fields in declaration order, joined by '.', then a newline.
    Fields 255, 0, 0, 1 of type [int] give "255.0.0.1"; fields of an 8-bit
    unsigned type are character-typed and are written as the characters
    with those codes. *)
Theorem print_ip_tuple_as_vector (E : ctype) (A : allocator) (x : value)
  (xs : list value) (out : ostream) :
  Forall (fun y => type_of y = E) (x :: xs) ->
  print_ip (VTuple (x :: xs)) out = print_ip (VVector E A (x :: xs)) out /\
  (has_inserter E = true ->
   exists ss : list string,
     Forall2 (fun y s => text_of y = Some s) (x :: xs) ss /\
     print_ip (VTuple (x :: xs)) out =
       Printed (out ++ String.concat "." ss ++ nl)) /\
  (x :: xs = [i32 255; i32 0; i32 0; i32 1] ->
   print_ip (VTuple (x :: xs)) out = Printed (out ++ "255.0.0.1" ++ nl)) /\
  (x :: xs = [u8 255; u8 0; u8 0; u8 1] ->
   print_ip (VTuple (x :: xs)) out =
     Printed (out ++ String.concat "."
                       [String (ascii_of_nat 255) "";
                        String (ascii_of_nat 0) "";
                        String (ascii_of_nat 0) "";
                        String (ascii_of_nat 1) ""] ++ nl)).
Proof.
  intros H.
  assert (Hjoin : has_inserter E = true ->
    exists ss : list string,
      texts_of (x :: xs) = Some ss /\
      print_ip (VTuple (x :: xs)) out =
        Printed (out ++ String.concat "." ss ++ nl)).
  { intros HE. destruct (texts_of_typed E (x :: xs) HE H) as [ss Hss].
    exists ss. split; [exact Hss|].
    rewrite (print_ip_tuple_run E x xs out H), HE.
    now rewrite (print_ip_container_texts (x :: xs) ss out Hss). }
  split; [|split; [|split]].
  - rewrite (print_ip_tuple_run E x xs out H).
    destruct (has_inserter E) eqn:HE.
    + now rewrite (print_ip_vector_run E A (x :: xs) out HE).
    + unfold print_ip. cbn [type_of]. now rewrite compile_vector, HE.
  - intros HE. destruct (Hjoin HE) as (ss & Hss & P).
    exists ss. split; [now apply texts_of_Forall2|exact P].
  - intros Hl. rewrite Hl in H, Hjoin.
    inversion H as [|? ? HE _]. simpl in HE. subst E.
    destruct (Hjoin eq_refl) as (ss & Hss & P).
    rewrite Hl, P. simpl in Hss. injection Hss as <-. reflexivity.
  - intros Hl. rewrite Hl in H, Hjoin.
    inversion H as [|? ? HE _]. simpl in HE. subst E.
    destruct (Hjoin eq_refl) as (ss & Hss & P).
    rewrite Hl, P. simpl in Hss. injection Hss as <-. reflexivity.
Qed.

Lemma print_ip_tuple_as_vector_witness :
  print_ip (VTuple [i32 255; i32 0; i32 0; i32 1]) "" =
  Printed ("" ++ "255.0.0.1" ++ nl).
Proof.
  assert (H : Forall (fun y => type_of y = TIntegral Int)
                [i32 255; i32 0; i32 0; i32 1]) by (repeat constructor).
  destruct (print_ip_tuple_as_vector (TIntegral Int) StdAllocator
              (i32 255) [i32 0; i32 0; i32 1] "" H) as (_ & _ & E & _).
  apply E. reflexivity.
Defined.

(** C4 as stated fails on its example: four fields 255, 0, 0, 1 of an 8-bit
    unsigned type are not printed as "255.0.0.1". *)
Lemma print_ip_tuple_u8_not_decimal :
  print_ip (VTuple [u8 255; u8 0; u8 0; u8 1]) "" <>
  Printed ("255.0.0.1" ++ nl).
Proof. vm_compute. discriminate. Qed.

(** C5. [are_same] holds of a type list exactly when every member is
    identical to the first one; it unfolds as "the first two are the same
    and the list from the second on satisfies [are_same]", and is true for
    a single type. *)
Theorem are_same_iff_all_equal_first (Ts : list ctype) :
  (are_same_v Ts = true <-> (forall T, In T Ts -> hd_error Ts = Some T)) /\
  (forall T U R,
     are_same_v (T :: U :: R) = is_same T U && are_same_v (U :: R)) /\
  (forall T U, is_same T U = true <-> T = U) /\
  (forall T, are_same_v [T] = true).
Proof.
  split; [apply are_same_head|].
  split; [reflexivity|].
  split; [apply is_same_eq|reflexivity].
Qed.

Lemma print_ip_string_run (v : value) (s : string) (out : ostream) :
  converts_to_string (type_of v) = true ->
  to_std_string v = Some s ->
  print_ip v out = Printed (out ++ s ++ nl).
Proof.
  intros Hc Hs.
  destruct v as [k z|s'|s'|s'|E A xs|E A xs|xs|name cs ct]; try discriminate;
    simpl in Hs; try subst cs; try injection Hs as <-;
    unfold print_ip; simpl;
    unfold print_ip_string, put; now rewrite append_assoc.
Qed.



(** C7. A [std::vector] and a [std::list] holding the same values in the
    same order are both classified as containers and produce the same
    result, whatever the element type and the allocators. *)
Theorem vector_list_same_output (E : ctype) (A A' : allocator)
  (xs : list value) (out : ostream) :
  is_vector_v (TVector E A) = true /\
  is_list_v (TList E A') = true /\
  print_ip (VVector E A xs) out = print_ip (VList E A' xs) out.
Proof.
  split; [reflexivity|]. split; [reflexivity|].
  unfold print_ip. cbn [type_of]. rewrite compile_vector, compile_list.
  destruct (has_inserter E); reflexivity.
Qed.

(** C8. A [std::string] is written to the stream unchanged, whatever
    characters it holds, followed by exactly one newline; "test" gives
    "test" and a newline. *)
Theorem print_ip_string_verbatim (s : string) (out : ostream) :
  print_ip (VString s) out = Printed (out ++ s ++ nl) /\
  print_ip (VString "test") "" = Printed ("test" ++ nl) /\
  print_ip (VString "a.b.c") "" = Printed ("a.b.c" ++ nl).
Proof.
  split; [now apply print_ip_string_run|]. split; reflexivity.
Qed.

(** C9. For [std::tuple<>] the accepted tuple overload is disabled
    ([sizeof...(Ts) > 0] fails), the deleted overload, whose condition is
    the negation, is enabled, and the call is rejected at compile time as a
    use of a deleted function. *)
Theorem empty_tuple_rejected :
  viable OvTuple (TTuple []) = false /\
  viable OvTupleDeleted (TTuple []) = true /\
  (forall Ts,
     viable OvTupleDeleted (TTuple Ts) = negb (viable OvTuple (TTuple Ts))) /\
  resolve (TTuple []) = Rejected UseOfDeletedFunction /\
  (forall out, print_ip (VTuple []) out = CompileError UseOfDeletedFunction).
Proof. repeat split. Qed.

Lemma texts_of_vbool (bs : list bool) :
  texts_of (map vbool bs) =
  Some (map (fun b : bool => if b then "1" else "0") bs).
Proof.
  induction bs as [|b bs IH]; [reflexivity|].
  cbn [map texts_of]. rewrite IH. now destruct b.
Qed.

(** C10. A scalar [bool] is a candidate for no overload, so the call does
    not compile; [std::vector<bool>] and [std::list<bool>] are containers,
    and their elements are printed as 1 or 0, joined by '.', followed by a
    newline. *)
Theorem bool_sequences_accepted (A : allocator) (bs : list bool)
  (out : ostream) :
  (forall o, viable o (TIntegral Bool) = false) /\
  compile (TIntegral Bool) = Rejected NoMatchingFunction /\
  is_vector_v (TVector (TIntegral Bool) A) = true /\
  is_list_v (TList (TIntegral Bool) A) = true /\
  compile (TVector (TIntegral Bool) A) = Selected OvContainer /\
  compile (TList (TIntegral Bool) A) = Selected OvContainer /\
  print_ip (VVector (TIntegral Bool) A (map vbool bs)) out =
    Printed (out ++ String.concat "."
                      (map (fun b : bool => if b then "1" else "0") bs)
                 ++ nl) /\
  print_ip (VList (TIntegral Bool) A (map vbool bs)) out =
    Printed (out ++ String.concat "."
                      (map (fun b : bool => if b then "1" else "0") bs)
                 ++ nl).
Proof.
  split; [intros o; now destruct o|].
  do 5 (split; [reflexivity|]).
  rewrite (print_ip_vector_run (TIntegral Bool) A _ out eq_refl).
  rewrite (print_ip_list_run (TIntegral Bool) A _ out eq_refl).
  rewrite (print_ip_container_texts _ _ out (texts_of_vbool bs)).
  split; reflexivity.
Qed.

(** ** Sanity of the model *)

(** On a well-typed argument the call either fails to compile or prints:
    the overload selected can always run on the argument. *)
Lemma well_typed_elements (E : ctype) (xs : list value) :
  forallb (fun x => is_same (type_of x) E && well_typed x) xs = true ->
  Forall (fun x => type_of x = E) xs.
Proof.
  rewrite forallb_forall, Forall_forall. intros H x Hx.
  specialize (H x Hx). apply andb_true_iff in H. now apply is_same_eq.
Qed.

Lemma uniform_fields (x : value) (xs : list value) :
  are_same (map type_of (x :: xs)) = true ->
  Forall (fun y => type_of y = type_of x) (x :: xs).
Proof.
  intros H. rewrite Forall_forall. intros y Hy.
  pose proof (proj1 (are_same_head _) H (type_of y) (in_map type_of _ _ Hy))
    as Hh.
  simpl in Hh. congruence.
Qed.

Lemma print_ip_well_typed (v : value) (out : ostream) :
  well_typed v = true -> print_ip v out <> IllTyped.
Proof.
  destruct v as [k z|s|s|s|E A xs|E A xs|xs|name cs ct]; intros Hwt.
  - destruct k; discriminate.
  - discriminate.
  - discriminate.
  - discriminate.
  - simpl in Hwt. apply well_typed_elements in Hwt.
    destruct (has_inserter E) eqn:HE.
    + destruct (texts_of_typed E xs HE Hwt) as [ss Hss].
      rewrite (print_ip_vector_run E A xs out HE).
      rewrite (print_ip_container_texts xs ss out Hss). discriminate.
    + unfold print_ip. cbn [type_of]. rewrite compile_vector, HE.
      discriminate.
  - simpl in Hwt. apply well_typed_elements in Hwt.
    destruct (has_inserter E) eqn:HE.
    + destruct (texts_of_typed E xs HE Hwt) as [ss Hss].
      rewrite (print_ip_list_run E A xs out HE).
      rewrite (print_ip_container_texts xs ss out Hss). discriminate.
    + unfold print_ip. cbn [type_of]. rewrite compile_list, HE.
      discriminate.
  - destruct xs as [|x xs]; [discriminate|].
    destruct (are_same (map type_of (x :: xs))) eqn:Hs.
    + pose proof (uniform_fields x xs Hs) as Hu.
      rewrite (print_ip_tuple_run (type_of x) x xs out Hu).
      destruct (has_inserter (type_of x)) eqn:HE; [|discriminate].
      destruct (texts_of_typed _ _ HE Hu) as [ss Hss].
      rewrite (print_ip_container_texts _ ss out Hss). discriminate.
    + unfold print_ip. cbn [type_of]. rewrite compile_tuple.
      unfold are_same_v. rewrite Hs, andb_false_r. discriminate.
  - destruct cs as [s|]; [|destruct ct; discriminate].
    now rewrite (print_ip_string_run (VObject name (Some s) ct) s out).
Qed.

(** * Further properties of the header *)

(** ** Strings: lengths, cancellation, separators *)

Lemma length_append (a b : string) :
  String.length (a ++ b) = String.length a + String.length b.
Proof. induction a as [|x a IH]; simpl; [reflexivity|now rewrite IH]. Qed.

Lemma append_cancel_l (a b c : string) : a ++ b = a ++ c -> b = c.
Proof.
  induction a as [|x a IH]; simpl; [trivial|].
  intros [= H]. now apply IH.
Qed.

Lemma append_cancel_r (a b c : string) : a ++ c = b ++ c -> a = b.
Proof.
  revert b. induction a as [|x a IH]; intros [|y b] H; simpl in H.
  - reflexivity.
  - apply (f_equal String.length) in H. simpl in H.
    rewrite length_append in H. lia.
  - apply (f_equal String.length) in H. simpl in H.
    rewrite length_append in H. lia.
  - injection H as -> H. f_equal. now apply IH.
Qed.

Lemma count_char_append (c : ascii) (a b : string) :
  count_char c (a ++ b) = count_char c a + count_char c b.
Proof.
  induction a as [|x a IH]; simpl; [reflexivity|]. rewrite IH. lia.
Qed.

(** A text without separators, followed by nothing or by a separator, is
    determined by the whole. *)
Lemma dot_free_prefix_unique (s t r1 r2 : string) :
  count_char "." s = 0 -> count_char "." t = 0 ->
  (r1 = "" \/ exists r, r1 = String "." r) ->
  (r2 = "" \/ exists r, r2 = String "." r) ->
  s ++ r1 = t ++ r2 -> s = t /\ r1 = r2.
Proof.
  revert t. induction s as [|x s IH]; intros [|y t] Hs Ht H1 H2 E;
    simpl in E.
  - now split.
  - exfalso. simpl in Ht. destruct H1 as [->|[r ->]]; [discriminate|].
    injection E as <- _. simpl in Ht. discriminate.
  - exfalso. simpl in Hs. destruct H2 as [->|[r ->]]; [discriminate|].
    injection E as -> _. simpl in Hs. discriminate.
  - injection E as -> E. simpl in Hs, Ht.
    destruct (IH t) with (5 := E) as [-> ->]; auto; lia.
Qed.

Lemma dotted_shape (ss : list string) :
  dotted ss = "" \/ exists r, dotted ss = String "." r.
Proof. destruct ss as [|s ss]; [now left|right]. simpl. eauto. Qed.

Lemma dotted_injective (l1 l2 : list string) :
  Forall (fun s => count_char "." s = 0) l1 ->
  Forall (fun s => count_char "." s = 0) l2 ->
  dotted l1 = dotted l2 -> l1 = l2.
Proof.
  intros H1. revert l2.
  induction H1 as [|s l1 Hs _ IH]; intros l2 H2 E;
    destruct H2 as [|t l2 Ht H2]; simpl in E; try discriminate.
  - reflexivity.
  - injection E as E.
    destruct (dot_free_prefix_unique s t (dotted l1) (dotted l2)) as [-> E'];
      auto using dotted_shape.
    f_equal. now apply IH.
Qed.

(** A join of non-empty texts without separators determines the texts. *)
Lemma concat_dot_injective (l1 l2 : list string) :
  Forall (fun s => count_char "." s = 0 /\ s <> "") l1 ->
  Forall (fun s => count_char "." s = 0 /\ s <> "") l2 ->
  String.concat dot l1 = String.concat dot l2 -> l1 = l2.
Proof.
  intros H1 H2 E.
  assert (F : forall l, Forall (fun s => count_char "." s = 0 /\ s <> "") l ->
                        Forall (fun s => count_char "." s = 0) l).
  { intros l. apply Forall_impl. tauto. }
  destruct H1 as [|s l1 [Hs Hs'] H1], H2 as [|t l2 [Ht Ht'] H2].
  - reflexivity.
  - exfalso. rewrite concat_dotted in E. simpl in E.
    destruct t; [now apply Ht'|discriminate].
  - exfalso. rewrite concat_dotted in E. simpl in E.
    destruct s; [now apply Hs'|discriminate].
  - rewrite !concat_dotted in E.
    destruct (dot_free_prefix_unique s t (dotted l1) (dotted l2)) as [-> E'];
      auto using dotted_shape.
    f_equal. apply dotted_injective; auto.
Qed.

Lemma count_char_dotted (ss : list string) :
  Forall (fun s => count_char "." s = 0) ss ->
  count_char "." (dotted ss) = List.length ss.
Proof.
  induction 1 as [|s ss Hs _ IH]; [reflexivity|].
  cbn [dotted List.length]. unfold dot.
  change ("." ++ s ++ dotted ss) with (String "." (s ++ dotted ss)).
  cbn [count_char]. rewrite count_char_append, Hs, IH. reflexivity.
Qed.

(** ** Decimal renderings *)

Lemma string_of_uint_digits (d : Decimal.uint) :
  count_char "." (NilEmpty.string_of_uint d) = 0.
Proof. induction d; simpl; auto. Qed.

Lemma dec_dot_free (z : Z) : count_char "." (dec z) = 0.
Proof.
  unfold dec. destruct (Z.to_int z) as [d|d]; simpl.
  - destruct d; simpl; auto using string_of_uint_digits.
  - destruct d; simpl; auto using string_of_uint_digits.
Qed.

Lemma to_int_proper (z : Z) :
  Z.to_int z <> Decimal.Pos Decimal.Nil /\
  Z.to_int z <> Decimal.Neg Decimal.Nil.
Proof.
  destruct z as [|p|p]; simpl; split; try discriminate;
    intros [= H]; now apply (DecimalPos.Unsigned.to_uint_nonnil p).
Qed.

Lemma dec_injective (z1 z2 : Z) : dec z1 = dec z2 -> z1 = z2.
Proof.
  unfold dec. intros H.
  apply (f_equal NilZero.int_of_string) in H.
  destruct (to_int_proper z1) as [A1 B1], (to_int_proper z2) as [A2 B2].
  rewrite !NilZero.isi in H by assumption.
  injection H as H.
  rewrite <- (DecimalZ.of_to z1), <- (DecimalZ.of_to z2). now rewrite H.
Qed.

Lemma dec_nonempty (z : Z) : dec z <> "".
Proof.
  unfold dec. destruct (Z.to_int z) as [d|d]; simpl; [|discriminate].
  destruct d; discriminate.
Qed.

Lemma map_dec_injective (l1 l2 : list Z) : map dec l1 = map dec l2 -> l1 = l2.
Proof.
  revert l2. induction l1 as [|a l1 IH]; intros [|b l2]; simpl;
    try discriminate; [reflexivity|].
  intros [= H1 H2]. f_equal; [now apply dec_injective|now apply IH].
Qed.

Lemma map_dec_texts (l : list Z) :
  Forall (fun s => count_char "." s = 0 /\ s <> "") (map dec l).
Proof.
  induction l as [|a l IH]; simpl; constructor; auto.
  split; [apply dec_dot_free|apply dec_nonempty].
Qed.

(** ** Dispatch *)

Lemma are_same_cons_Forall (U : ctype) (Us : list ctype) :
  are_same (U :: Us) = true <-> Forall (eq U) Us.
Proof.
  rewrite are_same_head, Forall_forall. simpl. split.
  - intros H T HT. specialize (H T (or_intror HT)). congruence.
  - intros H T [->|HT]; [reflexivity|]. now rewrite (H T HT).
Qed.

Lemma print_ip_integral_run (k : integral) (z : Z) (out : ostream) :
  k <> Bool ->
  print_ip (VIntegral k z) out = Printed (print_ip_integral k z out).
Proof.
  intros Hk. unfold print_ip. cbn [type_of]. unfold compile.
  rewrite resolve_integral.
  destruct (integral_eqb k Bool) eqn:E; [|reflexivity].
  apply integral_eqb_eq in E. contradiction.
Qed.

(** X1. The [enable_if] conditions of the four [print_ip] templates are
    mutually exclusive: for every argument type at most one template is a
    candidate, and on a [std::tuple] exactly one of the two tuple
    templates is. *)
Theorem templates_never_compete (T : ctype) :
  (forall o1 o2,
     is_template o1 = true -> is_template o2 = true ->
     viable o1 T = true -> viable o2 T = true -> o1 = o2) /\
  (forall Ts,
     xorb (viable OvTuple (TTuple Ts)) (viable OvTupleDeleted (TTuple Ts)) =
     true).
Proof.
  split.
  - intros o1 o2 _ _. apply viable_exclusive.
  - intros Ts. simpl.
    now destruct (sizeof_pack_positive Ts && are_same_v Ts).
Qed.

Lemma templates_never_compete_witness :
  OvTuple = OvTuple /\
  xorb (viable OvTuple (TTuple [TString; TString]))
       (viable OvTupleDeleted (TTuple [TString; TString])) = true.
Proof.
  destruct (templates_never_compete (TTuple [TString; TString])) as [H1 H2].
  split; [|apply H2].
  apply H1; reflexivity.
Defined.

(** Closes the rows of the dispatch table that hold by computation. *)
Ltac dispatch_case :=
  repeat split; intros; try discriminate;
  repeat match goal with
    | H : _ \/ _ |- _ => destruct H
    | H : exists _, _ |- _ => destruct H
    | H : _ /\ _ |- _ => destruct H
    end;
  try discriminate; try congruence; eauto 8.

(** X2. The dispatch table of [print_ip] on the argument types modelled.
    The integral template is chosen exactly for integral types other than
    [bool]; the string function for [std::string], character pointers,
    string literals and classes that convert to [std::string]; the
    container template for every [std::vector] and [std::list]; the tuple
    template for tuples with at least one field whose fields all equal the
    first; the deleted template for the empty tuple and for tuples with two
    differing fields; and nothing matches [bool], [double] and classes
    that do not convert to [std::string]. *)
Theorem print_ip_dispatch_table (T : ctype) :
  (resolve T = Selected OvIntegral <->
   exists k, T = TIntegral k /\ k <> Bool) /\
  (resolve T = Selected OvString <->
   T = TString \/ T = TCharPtr \/ (exists n, T = TCharArray n) \/
   (exists name traits,
      T = TClass name traits /\ converts_to_std_string traits = true)) /\
  (resolve T = Selected OvContainer <->
   exists E A, T = TVector E A \/ T = TList E A) /\
  (resolve T = Selected OvTuple <->
   exists U Us, T = TTuple (U :: Us) /\ Forall (eq U) Us) /\
  (resolve T = Rejected UseOfDeletedFunction <->
   exists Ts, T = TTuple Ts /\
     (Ts = [] \/ exists U V, In U Ts /\ In V Ts /\ U <> V)) /\
  (resolve T = Rejected NoMatchingFunction <->
   T = TIntegral Bool \/ T = TDouble \/
   (exists name traits,
      T = TClass name traits /\ converts_to_std_string traits = false)).
Proof.
  destruct T as [k| | | |n|E A|E A|Ts|name traits].
  - rewrite resolve_integral.
    destruct (integral_eqb k Bool) eqn:Ek.
    + apply integral_eqb_eq in Ek. subst k. dispatch_case.
    + assert (Hk : k <> Bool)
        by (intros ->; simpl in Ek; discriminate).
      dispatch_case.
  - dispatch_case.
  - dispatch_case.
  - dispatch_case.
  - dispatch_case.
  - dispatch_case.
  - dispatch_case.
  - rewrite resolve_tuple. unfold are_same_v.
    destruct Ts as [|U Us]; [simpl; dispatch_case|].
    cbn [sizeof_pack_positive List.length Nat.ltb Nat.leb andb].
    destruct (are_same (U :: Us)) eqn:Es.
    + pose proof (proj1 (are_same_cons_Forall U Us) Es) as HF.
      dispatch_case.
      match goal with
      | H : TTuple _ = TTuple _ |- _ => injection H as <-
      end.
      exfalso.
      assert (Hf : are_same (U :: Us) = false)
        by (apply are_same_false; eauto).
      congruence.
    + pose proof (proj1 (are_same_false (U :: Us)) Es) as HF.
      dispatch_case.
      match goal with
      | H : TTuple _ = TTuple _ |- _ => injection H as <- <-
      end.
      exfalso.
      assert (Ht : are_same (U :: Us) = true)
        by (now apply are_same_cons_Forall).
      congruence.
  - rewrite resolve_class.
    destruct (converts_to_std_string traits) eqn:Hc; dispatch_case.
Qed.

(** ** What a call leaves on the stream *)






(** ** The integral overload *)

Lemma count_char_concat_dot (s : string) (ss : list string) :
  Forall (fun t => count_char "." t = 0) (s :: ss) ->
  count_char "." (String.concat dot (s :: ss)) = List.length ss.
Proof.
  intros H. inversion H as [|? ? Hs Hss]; subst.
  rewrite concat_dotted, count_char_append, Hs.
  now rewrite count_char_dotted.
Qed.

Lemma map_dec_dot_free (l : list Z) :
  Forall (fun t => count_char "." t = 0) (map dec l).
Proof.
  induction l as [|a l IH]; simpl; constructor; auto using dec_dot_free.
Qed.

Lemma sizeof_positive (k : integral) : 1 <= Sizes.sizeof k.
Proof. destruct k; simpl; lia. Qed.

Lemma static_cast_unsigned_idem (B : nat) (z : Z) :
  static_cast_unsigned B (static_cast_unsigned B z) = static_cast_unsigned B z.
Proof.
  unfold static_cast_unsigned. apply Z.mod_mod. apply Z.pow_nonzero; lia.
Qed.

Lemma be_bytes_injective (B : nat) (z z' : Z) :
  be_bytes B (static_cast_unsigned B z) =
  be_bytes B (static_cast_unsigned B z') ->
  static_cast_unsigned B z = static_cast_unsigned B z'.
Proof.
  intros H. apply (f_equal of_be_bytes) in H.
  rewrite !of_be_bytes_be_bytes in H.
  fold (static_cast_unsigned B (static_cast_unsigned B z)) in H.
  fold (static_cast_unsigned B (static_cast_unsigned B z')) in H.
  now rewrite !static_cast_unsigned_idem in H.
Qed.

(** X4. Two integral arguments print the same line exactly when their
    types have the same size and the values have the same bit pattern
    (are equal modulo 2^(8*sizeof)); signedness plays no part, and
    different bit patterns never print alike. *)
Theorem print_ip_integral_same_line_iff (k k' : integral) (z z' : Z)
  (out : ostream) :
  k <> Bool -> k' <> Bool ->
  (print_ip (VIntegral k z) out = print_ip (VIntegral k' z') out <->
   Sizes.sizeof k = Sizes.sizeof k' /\
   (z mod 2 ^ (8 * Z.of_nat (Sizes.sizeof k)) =
    z' mod 2 ^ (8 * Z.of_nat (Sizes.sizeof k)))%Z).
Proof.
  intros Hk Hk'.
  rewrite (print_ip_integral_run k z out Hk).
  rewrite (print_ip_integral_run k' z' out Hk').
  rewrite !print_ip_integral_be. split.
  - intros [= H]. apply append_cancel_l, append_cancel_r in H.
    apply concat_dot_injective in H; try apply map_dec_texts.
    apply map_dec_injective in H.
    assert (HB : Sizes.sizeof k = Sizes.sizeof k').
    { apply (f_equal (@List.length Z)) in H.
      now rewrite !be_bytes_length in H. }
    split; [exact HB|]. rewrite <- HB in H.
    now apply be_bytes_injective.
  - intros [HB Hz]. rewrite <- HB. unfold static_cast_unsigned.
    now rewrite Hz.
Qed.

Lemma print_ip_integral_same_line_iff_witness :
  print_ip (VIntegral Int (-1)) "" = print_ip (VIntegral UInt 4294967295) "".
Proof.
  assert (H1 : Int <> Bool) by discriminate.
  assert (H2 : UInt <> Bool) by discriminate.
  apply (print_ip_integral_same_line_iff Int UInt (-1) 4294967295 "" H1 H2).
  split; reflexivity.
Defined.

Lemma be_bytes_zero (B : nat) : be_bytes B 0 = repeat 0%Z B.
Proof.
  induction B as [|B IH]; [reflexivity|].
  cbn [be_bytes]. change (0 / 256)%Z with 0%Z. change (0 mod 256)%Z with 0%Z.
  rewrite IH. change [0%Z] with (repeat 0%Z 1). rewrite <- repeat_app.
  f_equal. lia.
Qed.

(** X5. Leading zero bytes are printed, not dropped: a value between 0 and
    255 held in a type of B bytes prints as B-1 groups "0" followed by the
    value. *)
Theorem print_ip_integral_small_value (k : integral) (z : Z) (out : ostream) :
  k <> Bool ->
  (0 <= z < 256)%Z ->
  print_ip (VIntegral k z) out =
  Printed (out ++ String.concat "."
                    (repeat "0" (Sizes.sizeof k - 1) ++ [dec z]) ++ nl).
Proof.
  intros Hk Hz.
  rewrite (print_ip_integral_run k z out Hk), print_ip_integral_be.
  pose proof (sizeof_positive k) as HB.
  destruct (Sizes.sizeof k) as [|B] eqn:EB; [lia|].
  assert (Hu : static_cast_unsigned (S B) z = z).
  { unfold static_cast_unsigned. apply Z.mod_small.
    split; [lia|]. apply Z.lt_le_trans with (2 ^ 8)%Z; [simpl; lia|].
    apply Z.pow_le_mono_r; lia. }
  rewrite Hu. cbn [be_bytes].
  rewrite (Z.div_small z 256) by lia. rewrite (Z.mod_small z 256) by lia.
  rewrite be_bytes_zero, map_app, map_repeat.
  replace (S B - 1) with B by lia. reflexivity.
Qed.

Lemma print_ip_integral_small_value_witness :
  print_ip (VIntegral UInt 7) "" =
  Printed ("" ++ String.concat "." (repeat "0" (4 - 1) ++ [dec 7]) ++ nl).
Proof.
  apply (print_ip_integral_small_value UInt 7 "").
  - discriminate.
  - lia.
Defined.

Lemma dec_newline_free (z : Z) : count_char "010" (dec z) = 0.
Proof.
  assert (H : forall d, count_char "010" (NilEmpty.string_of_uint d) = 0)
    by (induction d; simpl; auto).
  unfold dec. destruct (Z.to_int z) as [d|d]; simpl; destruct d; simpl; auto.
Qed.

Lemma count_newline_dotted (ss : list string) :
  Forall (fun s => count_char "010" s = 0) ss ->
  count_char "010" (dotted ss) = 0.
Proof.
  induction 1 as [|s ss Hs _ IH]; [reflexivity|].
  cbn [dotted]. unfold dot.
  change ("." ++ s ++ dotted ss) with (String "." (s ++ dotted ss)).
  cbn [count_char]. rewrite count_char_append, Hs, IH. reflexivity.
Qed.

Lemma length_dotted_bounds (ss : list string) :
  Forall (fun s => 1 <= String.length s <= 3) ss ->
  2 * List.length ss <= String.length (dotted ss) <= 4 * List.length ss.
Proof.
  induction 1 as [|s ss Hs _ IH]; [simpl; lia|].
  cbn [dotted List.length]. unfold dot.
  change ("." ++ s ++ dotted ss) with (String "." (s ++ dotted ss)).
  cbn [String.length]. rewrite length_append. lia.
Qed.

Lemma dec_byte_length_table :
  forallb (fun n => let l := String.length (dec (Z.of_nat n)) in
                    Nat.leb 1 l && Nat.leb l 3) (seq 0 256) = true.
Proof. vm_compute. reflexivity. Qed.

Lemma dec_byte_length (g : Z) :
  (0 <= g <= 255)%Z -> 1 <= String.length (dec g) <= 3.
Proof.
  intros Hg.
  pose proof (proj1 (forallb_forall _ _) dec_byte_length_table (Z.to_nat g))
    as H.
  assert (Hin : In (Z.to_nat g) (seq 0 256)) by (apply in_seq; lia).
  specialize (H Hin). cbv beta zeta in H.
  rewrite Z2Nat.id in H by lia.
  apply andb_true_iff in H. destruct H as [H1 H2].
  apply Nat.leb_le in H1, H2. lia.
Qed.

(** X6. The line printed for an integral argument of B bytes has exactly
    B-1 separators, contains no newline before the final one, and is
    between 2B-1 and 4B-1 characters long (newline not counted): at most
    15 characters for a 32-bit value. *)
Theorem print_ip_integral_line_shape (k : integral) (z : Z) (out : ostream) :
  k <> Bool ->
  exists line : string,
    print_ip (VIntegral k z) out = Printed (out ++ line ++ nl) /\
    count_char "." line = Sizes.sizeof k - 1 /\
    count_char "010" line = 0 /\
    2 * Sizes.sizeof k - 1 <= String.length line <= 4 * Sizes.sizeof k - 1.
Proof.
  intros Hk.
  rewrite (print_ip_integral_run k z out Hk), print_ip_integral_be.
  set (u := static_cast_unsigned (Sizes.sizeof k) z).
  pose proof (be_bytes_length (Sizes.sizeof k) u) as HL.
  pose proof (be_bytes_range (Sizes.sizeof k) u) as HR.
  pose proof (sizeof_positive k) as HB.
  eexists. split; [reflexivity|].
  destruct (be_bytes (Sizes.sizeof k) u) as [|g gs]; [simpl in HL; lia|].
  cbn [map]. simpl in HL.
  inversion HR as [|? ? Hg Hgs]; subst.
  assert (Hlen : Forall (fun s => 1 <= String.length s <= 3) (map dec gs)).
  { clear - Hgs. induction Hgs; simpl; constructor; auto.
    now apply dec_byte_length. }
  assert (Hnl : Forall (fun s => count_char "010" s = 0) (map dec gs)).
  { clear. induction gs; simpl; constructor; auto using dec_newline_free. }
  split; [|split].
  - rewrite (count_char_concat_dot (dec g) (map dec gs)
               (map_dec_dot_free (g :: gs))).
    rewrite length_map. lia.
  - rewrite concat_dotted, count_char_append, dec_newline_free.
    now rewrite count_newline_dotted.
  - rewrite concat_dotted, length_append.
    pose proof (length_dotted_bounds _ Hlen) as Hd.
    pose proof (dec_byte_length g Hg) as Hg'.
    rewrite length_map in Hd. lia.
Qed.

Lemma print_ip_integral_line_shape_witness :
  exists line : string,
    print_ip (VIntegral Int 2130706433) "" = Printed ("" ++ line ++ nl) /\
    count_char "." line = 4 - 1 /\
    count_char "010" line = 0 /\
    2 * 4 - 1 <= String.length line <= 4 * 4 - 1.
Proof.
  apply (print_ip_integral_line_shape Int 2130706433 "").
  discriminate.
Defined.

(** ** The tuple helper on its own *)

Lemma fold_comma_fields (t : list value) (I : list nat) (vs : list value)
  (first : bool) (out : ostream) :
  fields_at t I = Some vs ->
  option_map snd (detail.fold_comma t I (first, out)) =
  print_ip_range vs first out.
Proof.
  revert vs first out. induction I as [|i I IH]; intros vs first out; simpl.
  - now intros [= <-].
  - destruct (nth_error t i) as [v|]; [|discriminate].
    destruct (fields_at t I) as [vs'|]; [|discriminate].
    intros [= <-]. simpl.
    destruct (insert v (if negb first then put dot out else out)) as [out'|];
      [|reflexivity].
    now apply IH.
Qed.

(** X7. [detail::print_tuple_impl] prints the fields named by its index
    sequence, in the order of that sequence, joined by '.', followed by a
    newline; it does so for any tuple, uniform or not, and for any indices
    within the tuple, not only for 0, 1, ..., n-1. *)
Theorem print_tuple_impl_prints_selected_fields (t : list value)
  (I : list nat) (vs : list value) (ss : list string) (out : ostream) :
  fields_at t I = Some vs ->
  texts_of vs = Some ss ->
  detail.print_tuple_impl t I out = Some (out ++ String.concat "." ss ++ nl).
Proof.
  intros Hf Ht. unfold detail.print_tuple_impl.
  pose proof (fold_comma_fields t I vs true out Hf) as H.
  rewrite (print_ip_range_first vs ss out Ht) in H.
  destruct (detail.fold_comma t I (true, out)) as [[f o]|];
    [|discriminate].
  simpl in H. injection H as ->. unfold put. simpl.
  now rewrite append_assoc.
Qed.

Lemma print_tuple_impl_prints_selected_fields_witness :
  detail.print_tuple_impl [i32 1; VString "x"; i32 3] [2; 0] "" =
  Some ("" ++ String.concat "." ["3"; "1"] ++ nl).
Proof.
  apply (print_tuple_impl_prints_selected_fields
           [i32 1; VString "x"; i32 3] [2; 0] [i32 3; i32 1]);
    reflexivity.
Defined.

(** ** Elements of containers *)

Lemma texts_of_decimal (k : integral) (zs : list Z) :
  prints_decimal k = true ->
  texts_of (map (VIntegral k) zs) = Some (map dec zs).
Proof.
  intros Hk. induction zs as [|z zs IH]; [reflexivity|].
  cbn [map texts_of]. rewrite IH. now destruct k.
Qed.

Lemma texts_of_strings (l : list string) :
  texts_of (map VString l) = Some l.
Proof.
  induction l as [|s l IH]; [reflexivity|].
  cbn [map texts_of text_of]. now rewrite IH.
Qed.

Lemma has_inserter_integral (k : integral) :
  has_inserter (TIntegral k) = true.
Proof. reflexivity. Qed.

(** X8. For a vector or list of integers printed in decimal (any integer
    type except [bool] and the character types) the printed line
    determines the sequence: two sequences print alike only when they are
    equal, the empty sequence included. *)
Theorem print_ip_integer_sequence_injective (k : integral)
  (A A' : allocator) (zs zs' : list Z) (out : ostream) :
  prints_decimal k = true ->
  (print_ip (VVector (TIntegral k) A (map (VIntegral k) zs)) out =
   print_ip (VVector (TIntegral k) A' (map (VIntegral k) zs')) out ->
   zs = zs') /\
  (print_ip (VList (TIntegral k) A (map (VIntegral k) zs)) out =
   print_ip (VList (TIntegral k) A' (map (VIntegral k) zs')) out ->
   zs = zs').
Proof.
  intros Hk.
  assert (Hinj : forall l l' : list Z,
            Printed (out ++ String.concat dot (map dec l) ++ nl) =
            Printed (out ++ String.concat dot (map dec l') ++ nl) ->
            l = l').
  { intros l l' [= H]. apply append_cancel_l, append_cancel_r in H.
    apply concat_dot_injective in H; try apply map_dec_texts.
    now apply map_dec_injective. }
  split; intros H; apply Hinj.
  - rewrite !(print_ip_vector_run _ _ _ out (has_inserter_integral k)) in H.
    now rewrite !(print_ip_container_texts _ _ out
                    (texts_of_decimal k _ Hk)) in H.
  - rewrite !(print_ip_list_run _ _ _ out (has_inserter_integral k)) in H.
    now rewrite !(print_ip_container_texts _ _ out
                    (texts_of_decimal k _ Hk)) in H.
Qed.

Lemma print_ip_integer_sequence_injective_witness :
  prints_decimal Int = true /\ [10; 20]%Z = [10; 20]%Z.
Proof.
  assert (H : prints_decimal Int = true) by reflexivity.
  split; [exact H|].
  apply (proj1 (print_ip_integer_sequence_injective Int StdAllocator
                  StdAllocator [10; 20]%Z [10; 20]%Z "" H)).
  reflexivity.
Defined.

(** X9. Text elements are inserted as they are, without escaping the
    separator: a sequence of strings that starts with the single element
    s.t prints exactly like the one that starts with the two elements s
    and t, and a sequence holding one empty string prints like the empty
    sequence. *)
Theorem string_elements_are_not_escaped (A : allocator) (s t : string)
  (rest : list string) (out : ostream) :
  print_ip (VVector TString A (map VString ((s ++ "." ++ t) :: rest))) out =
  print_ip (VVector TString A (map VString (s :: t :: rest))) out /\
  print_ip (VList TString A (map VString ((s ++ "." ++ t) :: rest))) out =
  print_ip (VList TString A (map VString (s :: t :: rest))) out /\
  print_ip (VVector TString A [VString ""]) out =
  print_ip (VVector TString A []) out.
Proof.
  assert (E : String.concat dot ((s ++ "." ++ t) :: rest) =
              String.concat dot (s :: t :: rest)).
  { rewrite !concat_dotted. cbn [dotted]. unfold dot.
    now rewrite !append_assoc. }
  split; [|split].
  - rewrite !(print_ip_vector_run TString A _ out eq_refl).
    rewrite !(print_ip_container_texts _ _ out (texts_of_strings _)).
    now rewrite E.
  - rewrite !(print_ip_list_run TString A _ out eq_refl).
    rewrite !(print_ip_container_texts _ _ out (texts_of_strings _)).
    now rewrite E.
  - change [VString ""] with (map VString [""]).
    change (@nil value) with (map VString []).
    rewrite !(print_ip_vector_run TString A _ out eq_refl).
    rewrite !(print_ip_container_texts _ _ out (texts_of_strings _)).
    reflexivity.
Qed.

(** X10. [print_ip] does not recurse into elements.  When the element
    type is itself a vector, a list or a tuple, or a class that declares
    no [operator<<], a vector or list of it is selected by the container
    template but its body does not compile, whatever the value, the empty
    one included; the same holds for a uniform tuple of such fields. *)
Theorem nested_sequences_do_not_compile (E : ctype) (A : allocator)
  (xs : list value) (n : nat) (out : ostream) :
  ((exists E' A', E = TVector E' A' \/ E = TList E' A') \/
   (exists Ts, E = TTuple Ts) \/
   (exists name traits,
      E = TClass name traits /\ has_stream_inserter traits = false)) ->
  resolve (TVector E A) = Selected OvContainer /\
  print_ip (VVector E A xs) out = CompileError NoStreamInsertion /\
  print_ip (VList E A xs) out = CompileError NoStreamInsertion /\
  compile (TTuple (repeat E (S n))) = Rejected NoStreamInsertion.
Proof.
  intros H.
  assert (HE : has_inserter E = false).
  { destruct H as [(E' & A' & [->| ->])|[[Ts ->]|(name & traits & -> & Hi)]];
      try reflexivity.
    exact Hi. }
  split; [reflexivity|].
  split; [|split].
  - unfold print_ip. cbn [type_of]. now rewrite compile_vector, HE.
  - unfold print_ip. cbn [type_of]. now rewrite compile_list, HE.
  - rewrite compile_tuple. unfold are_same_v.
    assert (HF : Forall (eq E) (repeat E (S n))).
    { apply Forall_forall. intros x Hx. symmetry.
      apply (repeat_spec _ _ _ Hx). }
    rewrite (are_same_uniform E _ HF).
    cbn [repeat] in HF |- *. rewrite (forallb_uniform has_inserter E _ _ HF).
    now rewrite HE.
Qed.

Lemma nested_sequences_do_not_compile_witness :
  print_ip (VVector (TVector (TIntegral Int) StdAllocator) StdAllocator [])
    "" = CompileError NoStreamInsertion.
Proof.
  destruct (nested_sequences_do_not_compile
              (TVector (TIntegral Int) StdAllocator) StdAllocator [] 0 "")
    as (_ & H & _).
  - left. exists (TIntegral Int), StdAllocator. left. reflexivity.
  - exact H.
Defined.

(** X11. Whether a tuple type is accepted does not depend on the order of
    its fields: [are_same] gives the same answer on any rearrangement of
    the type list, and so does overload resolution on the tuple. *)
Theorem are_same_permutation (Ts Us : list ctype) :
  Permutation Ts Us ->
  are_same_v Ts = are_same_v Us /\
  resolve (TTuple Ts) = resolve (TTuple Us).
Proof.
  intros HP.
  assert (Hs : are_same Ts = are_same Us).
  { assert (F : forall l l', Permutation l l' ->
                  are_same l = false -> are_same l' = false).
    { intros l l' P Hl. apply are_same_false in Hl.
      destruct Hl as (T & U & HT & HU & N). apply are_same_false.
      exists T, U. eauto using Permutation_in. }
    destruct (are_same Ts) eqn:ETs, (are_same Us) eqn:EUs; auto.
    - rewrite (F Us Ts (Permutation_sym HP) EUs) in ETs. discriminate.
    - rewrite (F Ts Us HP ETs) in EUs. discriminate. }
  split; [exact Hs|].
  rewrite !resolve_tuple. unfold are_same_v, sizeof_pack_positive.
  now rewrite Hs, (Permutation_length HP).
Qed.

Lemma are_same_permutation_witness :
  are_same_v [TIntegral Int; TString; TIntegral Int] =
  are_same_v [TString; TIntegral Int; TIntegral Int] /\
  resolve (TTuple [TIntegral Int; TString; TIntegral Int]) =
  resolve (TTuple [TString; TIntegral Int; TIntegral Int]).
Proof.
  apply (are_same_permutation [TIntegral Int; TString; TIntegral Int]
           [TString; TIntegral Int; TIntegral Int]).
  apply perm_swap.
Defined.

(** X12. The byte decomposition applies to a scalar argument only.  An
    integer placed alone in a vector, a list or a tuple is printed as one
    decimal number, and for every integer type wider than one byte this
    differs from what [print_ip] prints for the integer itself. *)
Theorem elements_are_not_byte_decomposed (k : integral) (A : allocator)
  (z : Z) (out : ostream) :
  prints_decimal k = true ->
  print_ip (VVector (TIntegral k) A [VIntegral k z]) out =
    Printed (out ++ dec z ++ nl) /\
  print_ip (VList (TIntegral k) A [VIntegral k z]) out =
    Printed (out ++ dec z ++ nl) /\
  print_ip (VTuple [VIntegral k z]) out = Printed (out ++ dec z ++ nl) /\
  print_ip (VIntegral k z) out <> Printed (out ++ dec z ++ nl).
Proof.
  intros Hk.
  assert (Ht : texts_of [VIntegral k z] = Some [dec z])
    by (apply (texts_of_decimal k [z] Hk)).
  split; [|split; [|split]].
  - rewrite (print_ip_vector_run _ A _ out (has_inserter_integral k)).
    now rewrite (print_ip_container_texts _ _ out Ht).
  - rewrite (print_ip_list_run _ A _ out (has_inserter_integral k)).
    now rewrite (print_ip_container_texts _ _ out Ht).
  - rewrite (print_ip_tuple_run (TIntegral k) _ [] out)
      by (repeat constructor).
    rewrite has_inserter_integral.
    now rewrite (print_ip_container_texts _ _ out Ht).
  - assert (Hb : k <> Bool) by (intros ->; discriminate).
    rewrite (print_ip_integral_run k z out Hb), print_ip_integral_be.
    intros [= H]. apply append_cancel_l, append_cancel_r in H.
    apply (f_equal (count_char ".")) in H.
    rewrite dec_dot_free in H.
    set (u := static_cast_unsigned (Sizes.sizeof k) z) in H.
    pose proof (be_bytes_length (Sizes.sizeof k) u) as HL.
    destruct (be_bytes (Sizes.sizeof k) u) as [|g gs] eqn:Eg.
    + simpl in HL. destruct k; discriminate.
    + cbn [map] in H.
      rewrite (count_char_concat_dot (dec g) (map dec gs)
                 (map_dec_dot_free (g :: gs))) in H.
      rewrite length_map in H. simpl in HL.
      destruct k; simpl in HL; try discriminate; lia.
Qed.

Lemma elements_are_not_byte_decomposed_witness :
  print_ip (VTuple [VIntegral Int 5]) "" = Printed ("" ++ dec 5 ++ nl) /\
  print_ip (VIntegral Int 5) "" <> Printed ("" ++ dec 5 ++ nl).
Proof.
  destruct (elements_are_not_byte_decomposed Int StdAllocator 5 "")
    as (_ & _ & H1 & H2).
  - reflexivity.
  - split; [exact H1|exact H2].
Defined.
